(** * Modern Portfolio Theory: the statistics and sampling core of [main.py]

    The development embeds the numeric core of [main.py]
    ([portfolio_performance], [simulate_portfolios], [neg_sharpe],
    [optimize_portfolio]) and settles the statements of the specification
    against it.

    The program text is written once over a small arithmetic signature
    ([Scalar]): the operations the source applies to its numbers
    (addition, subtraction, negation, multiplication, division, square root,
    the test for NaN and the conversion of a Python [int]).  The signature
    is interpreted by [binary64]: IEEE 754 double precision, the arithmetic
    numpy computes with (the kernel's primitive floats: a division by zero
    yields an infinity or NaN, the square root of a negative number is
    NaN).  What is proved over the signature holds for it.

    Part I holds the definitions, Part II the supporting lemmas, Part III
    the statements of the specification, Part IV further properties of the
    code, among them of [compute_log_returns] and of the tables computed by
    [plot_cumulative_returns]. *)

From Stdlib Require Import ZArith List Floats Uint63.
From stdpp Require Import base option list.

(** * Part I: definitions *)

(** ** Arithmetic signature *)

Class Scalar (F : Type) : Type := {
  of_int : nat → F;
  fadd : F → F → F;
  fsub : F → F → F;
  fopp : F → F;
  fmul : F → F → F;
  fdiv : F → F → F;
  fsqrt : F → F;
  fis_nan : F → bool
}.

Declare Scope scalar_scope.
Delimit Scope scalar_scope with sc.
Infix "⊕" := fadd (at level 50, left associativity) : scalar_scope.
Infix "⊖" := fsub (at level 50, left associativity) : scalar_scope.
Infix "⊗" := fmul (at level 40, left associativity) : scalar_scope.
Infix "⊘" := fdiv (at level 40, left associativity) : scalar_scope.
Local Open Scope scalar_scope.

(** numpy's [float64].  A Python [int] becomes a double through the 63-bit
    machine integers, which is exact for every length and constant the
    program uses. *)
#[export] Instance binary64 : Scalar float := {|
  of_int n := PrimFloat.of_uint63 (Uint63.of_Z (Z.of_nat n));
  fadd := PrimFloat.add;
  fsub := PrimFloat.sub;
  fopp := PrimFloat.opp;
  fmul := PrimFloat.mul;
  fdiv := PrimFloat.div;
  fsqrt := PrimFloat.sqrt;
  fis_nan := PrimFloat.is_nan
|}.

(** ** numpy and pandas operations used by the source

    A [Series] or one-dimensional array is a list; a [DataFrame] is the list
    of its columns, each column the list of the values of one asset (the
    columns of a frame all have the same number of rows).  The operations
    follow the libraries' documented meaning, sums running left to right.
    A frame of returns holds no missing value (NaN): [compute_log_returns]
    ends with [dropna()]. *)

Abbreviation Series F := (list F) (only parsing).
Abbreviation DataFrame F := (list (list F)) (only parsing).

Section Numpy.
Context {F : Type} `{Scalar F}.

(** [np.sum]: accumulation from the additive identity, left to right.
    (numpy adds up short arrays in this order and regroups the additions of
    longer ones; in binary64 that changes the rounding of a long sum, and
    none of the statements of this development.) *)
Definition np_sum (a : Series F) : F := fold_left fadd a (of_int 0).

(** [Series.sum()], which is what [np.sum] calls when its argument is a
    pandas [Series]: missing values (NaN) are skipped, that is, replaced by
    zero before the sum. *)
Definition fillna0 (x : F) : F := if fis_nan x then of_int 0 else x.

Definition series_sum (s : Series F) : F := np_sum (map fillna0 s).

(** Element-wise product of two arrays of the same length. *)
Definition np_multiply (a b : Series F) : Series F := zip_with fmul a b.

(** [np.dot] of two vectors, and of a matrix (list of rows) and a vector. *)
Definition np_dot (a b : Series F) : F := np_sum (np_multiply a b).

Definition np_dot_mat (m : list (Series F)) (v : Series F) : Series F :=
  map (λ row, np_dot row v) m.

(** [DataFrame.mean()]: the arithmetic mean of every column. *)
Definition series_mean (c : Series F) : F := np_sum c ⊘ of_int (length c).

Definition df_mean (df : DataFrame F) : Series F := map series_mean df.

(** [DataFrame.cov()]: the sample covariance of every pair of columns,
    normalised by [N - 1] (by zero when there are fewer than two rows). *)
Definition deviations (c : Series F) : Series F :=
  map (λ x, x ⊖ series_mean c) c.

Definition covariance (a b : Series F) : F :=
  np_sum (np_multiply (deviations a) (deviations b)) ⊘ of_int (length a - 1).

Definition df_cov (df : DataFrame F) : list (Series F) :=
  map (λ a, map (λ b, covariance a b) df) df.

(** A matrix times a scalar, element by element. *)
Definition mat_scale (m : list (Series F)) (k : F) : list (Series F) :=
  map (map (λ x, x ⊗ k)) m.
End Numpy.

(** ** Parameters ([main.py], lines 12 and 13) *)

Definition NUM_TRADING_DAYS : nat := 252.

(** The default of [num_portfolios]. *)
Set Warnings "-abstract-large-number".
Definition NUM_PORTFOLIOS : nat := 10000.
Set Warnings "+abstract-large-number".

(** ** Statistics ([main.py], lines 42 to 46) *)

Section Statistics.
Context {F : Type} `{Scalar F}.

(** The argument of the square root of line 44:
    [np.dot(weights.T, np.dot(returns.cov() * NUM_TRADING_DAYS, weights))]. *)
Definition quadratic_form (weights : Series F) (returns : DataFrame F) : F :=
  np_dot weights
    (np_dot_mat (mat_scale (df_cov returns) (of_int NUM_TRADING_DAYS)) weights).

(** [portfolio_performance(weights, returns)].  When the number of weights
    differs from the number of columns, the array operations of lines 43
    and 44 raise [ValueError]: the result is [None].  Otherwise the three
    numbers are returned as they are computed, without any test on them.
    On line 43 [weights * returns.mean()] is a pandas [Series], so the sum
    is [Series.sum]; on line 44 [np.dot] works on plain arrays. *)
Definition portfolio_performance (weights : Series F) (returns : DataFrame F)
  : option (F * F * F) :=
  if decide (length weights = length returns) then
    let mean_return :=
      series_sum (np_multiply weights (df_mean returns))
      ⊗ of_int NUM_TRADING_DAYS in
    let volatility := fsqrt (quadratic_form weights returns) in
    let sharpe_ratio := mean_return ⊘ volatility in
    Some (mean_return, volatility, sharpe_ratio)
  else None.

(** The three components, named. *)
Definition annualized_return (weights : Series F) (returns : DataFrame F) : F :=
  series_sum (np_multiply weights (df_mean returns)) ⊗ of_int NUM_TRADING_DAYS.

Definition annualized_volatility (weights : Series F) (returns : DataFrame F) : F :=
  fsqrt (quadratic_form weights returns).

Definition sharpe_of (weights : Series F) (returns : DataFrame F) : F :=
  annualized_return weights returns ⊘ annualized_volatility weights returns.
End Statistics.

(** ** Portfolio simulation ([main.py], lines 49 to 62)

    The source draws from numpy's global generator.  Its state is made
    explicit: [G] is the type of generator states and [random_double] one
    draw, returning the number and the next state.  The number of trials is
    a natural number (a negative [num_portfolios] makes [np.zeros] raise
    before anything is drawn). *)

Section Simulation.
Context {F : Type} `{Scalar F}.
Context {G : Type} (random_double : G → F * G).

(** [np.random.random(k)]: [k] successive draws. *)
Fixpoint np_random_random (k : nat) (g : G) : Series F * G :=
  match k with
  | 0 => ([], g)
  | S k' =>
      let '(x, g1) := random_double g in
      let '(xs, g2) := np_random_random k' g1 in
      (x :: xs, g2)
  end.

(** [weights /= np.sum(weights)]: the sum is taken first, then every element
    is divided by it. *)
Definition normalize (weights : Series F) : Series F :=
  let total := np_sum weights in
  map (λ x, x ⊘ total) weights.

(** [np.zeros((rows, cols))]. *)
Definition np_zeros (rows cols : nat) : list (Series F) :=
  replicate rows (replicate cols (of_int 0)).

(** The assignment [a[r, i] = v], which raises [IndexError] outside the
    array. *)
Definition setitem (a : list (Series F)) (r i : nat) (v : F)
  : option (list (Series F)) :=
  row ← a !! r;
  if decide (i < length row) then Some (<[r := <[i := v]> row]> a) else None.

(** The state of the loop: generator, [weights_record], [results]. *)
Definition sim_state : Type := G * list (Series F) * list (Series F).

(** The body of the loop of line 53, at index [i]. *)
Definition simulate_body (returns : DataFrame F) (st : sim_state) (i : nat)
  : option sim_state :=
  let '(g, weights_record, results) := st in
  let '(weights, g) := np_random_random (length returns) g in
  let weights := normalize weights in
  let weights_record := weights_record ++ [weights] in
  '(mean, vol, sharpe) ← portfolio_performance weights returns;
  results ← setitem results 0 i mean;
  results ← setitem results 1 i vol;
  results ← setitem results 2 i sharpe;
  Some (g, weights_record, results).

(** [for i in range(...)]: the body threaded through the indices, stopping
    at the first exception. *)
Fixpoint for_each {S : Type} (body : S → nat → option S) (indices : list nat)
  (st : S) : option S :=
  match indices with
  | [] => Some st
  | i :: rest => st' ← body st i; for_each body rest st'
  end.

(** [simulate_portfolios(returns, num_portfolios)], started in generator
    state [g]: the pair the source returns, and the generator state it
    leaves behind. *)
Definition simulate_portfolios (returns : DataFrame F) (num_portfolios : nat)
  (g : G) : option (list (Series F) * list (Series F) * G) :=
  let results := np_zeros 3 num_portfolios in
  let weights_record := [] in
  '(g, weights_record, results) ←
    for_each (simulate_body returns) (seq 0 num_portfolios)
      (g, weights_record, results);
  Some (weights_record, results, g).

(** The draws of [n] successive trials of [k] assets each, and the generator
    state after them. *)
Fixpoint trial_draws (k n : nat) (g : G) : list (Series F) :=
  match n with
  | 0 => []
  | S n' => let '(d, g') := np_random_random k g in d :: trial_draws k n' g'
  end.

Fixpoint after_trials (k n : nat) (g : G) : G :=
  match n with
  | 0 => g
  | S n' => after_trials k n' (np_random_random k g).2
  end.
End Simulation.

(** A generator that replays a recorded sequence of draws, to run the
    sampler on concrete draws: the state is the list of the draws still to
    come (zero once the recording is exhausted). *)
Definition replay {F : Type} `{Scalar F} (g : list F) : F * list F :=
  match g with
  | [] => (of_int 0, [])
  | x :: rest => (x, rest)
  end.

(** ** Optimisation ([main.py], lines 65 to 75)

    [scipy.optimize.minimize] is not part of the program: the solver is a
    parameter, given the objective, the initial guess, the bounds and the
    constraints, and returning scipy's [OptimizeResult] (or raising). *)

Inductive constraint_type : Type := eq_constraint | ineq_constraint.

Record Constraint (F : Type) : Type := {
  ctype : constraint_type;
  cfun : list F → F
}.
Arguments ctype {F} _.
Arguments cfun {F} _ _.

Record OptimizeResult (F : Type) : Type := {
  opt_x : list F;
  opt_success : bool;
  opt_status : nat
}.
Arguments opt_x {F} _.
Arguments opt_success {F} _.
Arguments opt_status {F} _.

Section Optimization.
Context {F : Type} `{Scalar F}.
Context (minimize :
  (list F → option F) → list F → list (F * F) → list (Constraint F) →
  option (OptimizeResult F)).

(** [neg_sharpe(weights, returns)]. *)
Definition neg_sharpe (weights : Series F) (returns : DataFrame F) : option F :=
  p ← portfolio_performance weights returns;
  Some (fopp p.2).

(** The equality constraint of line 71 and the bounds of line 72. *)
Definition sum_to_one : Constraint F :=
  {| ctype := eq_constraint; cfun := λ x, np_sum x ⊖ of_int 1 |}.

Definition unit_bounds (num_assets : nat) : list (F * F) :=
  replicate num_assets (of_int 0, of_int 1).

(** [optimize_portfolio(returns)].  For a table without columns the
    quotient [1./num_assets] of line 73 raises [ZeroDivisionError]. *)
Definition optimize_portfolio (returns : DataFrame F)
  : option (OptimizeResult F) :=
  let num_assets := length returns in
  let constraints := [sum_to_one] in
  let bounds := unit_bounds num_assets in
  if decide (num_assets = 0) then None
  else
    let initial_guess := replicate num_assets (of_int 1 ⊘ of_int num_assets) in
    minimize (λ weights, neg_sharpe weights returns)
      initial_guess bounds constraints.
End Optimization.

(** ** The specification's vocabulary *)

(** Specification 4.1: the weighted sum of the per-asset mean period
    returns, asset by asset in column order. *)
Definition spec_weighted_sum {F : Type} `{Scalar F} (weights means : list F) : F :=
  fold_left
    (λ acc i, acc ⊕ (nth i weights (of_int 0) ⊗ nth i means (of_int 0)))
    (seq 0 (length weights)) (of_int 0).

(** The Sharpe ratio of a PerformanceTriple: a number, or the marker of the
    error DegenerateVolatility. *)
Inductive SharpeResult : Type :=
  | SharpeValue (s : float)
  | DegenerateVolatility.

(** Specification 4.1, [evaluate(weights, returns, periodsPerYear)]: the
    annualized return; the volatility, which is [≥ 0] for every input
    (sections 3 and 8): the quadratic form is clamped to zero before the
    square root unless it is a number greater than zero, so that a negative
    result of rounding and the NaN of a table with fewer than two rows
    (section 8: a one-row table yields the volatility 0, not NaN) both give
    the volatility 0; the Sharpe ratio, signalled as degenerate when the
    volatility is zero.  [None] is the error InputShapeMismatch. *)
Definition spec_evaluate (weights : list float) (returns : list (list float))
    (periodsPerYear : nat) : option (float * float * SharpeResult) :=
  if decide (length weights = length returns) then
    let annualizedReturn :=
      (spec_weighted_sum weights (df_mean returns) * of_int periodsPerYear)%float in
    let quadraticForm :=
      np_dot weights
        (np_dot_mat (mat_scale (df_cov returns) (of_int periodsPerYear)) weights) in
    let clamped := if (0 <? quadraticForm)%float then quadraticForm else 0%float in
    let annualizedVolatility := PrimFloat.sqrt clamped in
    let sharpeRatio :=
      if (annualizedVolatility =? 0)%float then DegenerateVolatility
      else SharpeValue (annualizedReturn / annualizedVolatility)%float in
    Some (annualizedReturn, annualizedVolatility, sharpeRatio)
  else None.



(** ** Returns ([main.py], lines 38 and 39)

    numpy's logarithm is not one of the kernel's primitive operations: it
    is a further operation of the arithmetic, and what is proved about
    [compute_log_returns] holds whatever function [np.log] is. *)

Class Logarithm (F : Type) : Type := { flog : F → F }.

Section Returns.
Context {F : Type} `{Scalar F} `{Logarithm F}.

(** The number of rows of a frame (with at least one column: the list of
    columns does not record the rows of a frame without columns). *)
Definition nrows {A : Type} (df : list (list A)) : nat :=
  match df with
  | [] => 0
  | c :: _ => length c
  end.

(** [Series.shift(1)]: every value moves one row down, the first row
    becomes missing ([None] stands for the NaN pandas puts there). *)
Definition shift1 (c : Series F) : list (option F) :=
  take (length c) (None :: map Some c).

(** [data / data.shift(1)] and [np.log], cell by cell; a missing cell stays
    missing. *)
Definition ratio_to_previous (c : Series F) : list (option F) :=
  zip_with (λ x prev, option_map (λ y, x ⊘ y) prev) c (shift1 c).

Definition np_log (c : list (option F)) : list (option F) :=
  map (option_map flog) c.

(** [DataFrame.dropna()]: the rows in which no cell is missing (or NaN) are
    kept, in order. *)
Definition notna (cell : option F) : bool :=
  match cell with
  | Some v => negb (fis_nan v)
  | None => false
  end.

Definition row_complete (df : list (list (option F))) (t : nat) : bool :=
  forallb (λ c, match c !! t with Some cell => notna cell | None => false end) df.

Definition dropna (df : list (list (option F))) : DataFrame F :=
  let keep := filter (λ t, row_complete df t = true) (seq 0 (nrows df)) in
  map (λ c, omap (λ t, mjoin (c !! t)) keep) df.

(** [compute_log_returns(data)]. *)
Definition compute_log_returns (data : DataFrame F) : DataFrame F :=
  dropna (map (λ c, np_log (ratio_to_previous c)) data).
End Returns.

(** ** Cumulative returns ([main.py], lines 99 and 100)

    The two series [plot_cumulative_returns] computes and hands to
    matplotlib, for a table of prices without missing values. *)

Section CumulativeReturns.
Context {F : Type} `{Scalar F}.

(** [DataFrame.pct_change()]: [data / data.shift(1) - 1]. *)
Definition pct_change (c : Series F) : list (option F) :=
  zip_with (λ x prev, option_map (λ y, (x ⊘ y) ⊖ of_int 1) prev) c (shift1 c).

(** [cumprod()]: the running product down a column. *)
Fixpoint cumprod_from (acc : F) (c : Series F) : Series F :=
  match c with
  | [] => []
  | x :: rest => let acc' := acc ⊗ x in acc' :: cumprod_from acc' rest
  end.

Definition cumprod (c : Series F) : Series F :=
  match c with
  | [] => []
  | x :: rest => x :: cumprod_from x rest
  end.

(** Row [t] of a frame, and the frame row by row. *)
Definition frame_row (df : DataFrame F) (t : nat) : Series F :=
  map (λ c, nth t c (of_int 0)) df.

Definition frame_rows (df : DataFrame F) : list (Series F) :=
  map (frame_row df) (seq 0 (nrows df)).

(** Line 99. *)
Definition cumulative_returns (data : DataFrame F) : DataFrame F :=
  map cumprod (map (map (λ x, x ⊕ of_int 1)) (dropna (map pct_change data))).

(** [plot_cumulative_returns(data, optimal_weights)]: the portfolio's line
    (line 100: one dot product per row, [ValueError] when the number of
    weights is not the number of columns) and the lines of the stocks. *)
Definition plot_cumulative_returns (data : DataFrame F) (optimal_weights : Series F)
  : option (Series F * DataFrame F) :=
  let cumulative_returns := cumulative_returns data in
  if decide (length optimal_weights = length cumulative_returns) then
    let portfolio_cum_returns :=
      map (λ row, np_dot row optimal_weights) (frame_rows cumulative_returns) in
    Some (portfolio_cum_returns, cumulative_returns)
  else None.
End CumulativeReturns.

(** A binary64 number that is a zero (of either sign) or NaN. *)
Definition zero_or_nan (x : float) : Prop :=
  match Prim2SF x with
  | S754_zero _ | S754_nan => True
  | _ => False
  end.

(** * Part II: supporting lemmas *)

(** ** The statistics *)

Section StatisticsFacts.
Context {F : Type} `{Scalar F}.

Lemma portfolio_performance_eq (weights : list F) (returns : list (list F)) :
  length weights = length returns →
  portfolio_performance weights returns =
    Some (annualized_return weights returns,
          annualized_volatility weights returns,
          sharpe_of weights returns).
Proof.
  intros Hlen. unfold portfolio_performance.
  destruct (decide (length weights = length returns)); [reflexivity | contradiction].
Qed.





End StatisticsFacts.

(** ** The simulation loop in closed form *)

Section SimulationFacts.
Context {F : Type} `{Scalar F}.
Context {G : Type} (random_double : G → F * G).

Lemma np_random_random_length (k : nat) (g : G) :
  length (np_random_random random_double k g).1 = k.
Proof.
  revert g. induction k as [|k IH]; intros g; simpl; [reflexivity|].
  destruct (random_double g) as [x g1].
  specialize (IH g1).
  destruct (np_random_random random_double k g1) as [xs g2]. simpl in *. lia.
Qed.

Lemma normalize_length (w : list F) : length (normalize w) = length w.
Proof. unfold normalize. apply length_map. Qed.

Lemma trial_draws_length (k n : nat) (g : G) :
  length (trial_draws random_double k n g) = n.
Proof.
  revert g. induction n as [|n IH]; intros g; simpl; [reflexivity|].
  destruct (np_random_random random_double k g) as [d g']. simpl. by rewrite IH.
Qed.

Lemma trial_draws_widths (k n : nat) (g : G) :
  Forall (λ d, length d = k) (trial_draws random_double k n g).
Proof.
  revert g. induction n as [|n IH]; intros g; simpl; [constructor|].
  pose proof (np_random_random_length k g) as Hk.
  destruct (np_random_random random_double k g) as [d g'].
  constructor; [exact Hk | apply IH].
Qed.

Lemma setitem_row0 (r0 r1 r2 : list F) (i : nat) (v : F) :
  i < length r0 → setitem [r0; r1; r2] 0 i v = Some [<[i:=v]> r0; r1; r2].
Proof. intros Hi. unfold setitem. simpl. by rewrite decide_True. Qed.

Lemma setitem_row1 (r0 r1 r2 : list F) (i : nat) (v : F) :
  i < length r1 → setitem [r0; r1; r2] 1 i v = Some [r0; <[i:=v]> r1; r2].
Proof. intros Hi. unfold setitem. simpl. by rewrite decide_True. Qed.

Lemma setitem_row2 (r0 r1 r2 : list F) (i : nat) (v : F) :
  i < length r2 → setitem [r0; r1; r2] 2 i v = Some [r0; r1; <[i:=v]> r2].
Proof. intros Hi. unfold setitem. simpl. by rewrite decide_True. Qed.

(** Writing position [a] and then filling the positions after it. *)
Lemma fill_row (row : list F) (a m : nat) (v : F) (vs : list F) :
  a < length row →
  take (S a) (<[a:=v]> row) ++ vs ++ drop (S a + m) (<[a:=v]> row) =
  take a row ++ (v :: vs) ++ drop (a + S m) row.
Proof.
  intros Ha.
  rewrite (take_S_r _ a v) by (by apply list_lookup_insert_eq).
  rewrite take_insert_ge by lia.
  rewrite drop_insert_lt by lia.
  rewrite <- app_assoc. simpl. by rewrite Nat.add_succ_r.
Qed.

(** The loop from index [a] over [m] trials fills the positions
    [a .. a+m-1] of the three rows with the statistics of the normalised
    draws, in order, and appends these to the record. *)
Lemma for_each_simulate (returns : list (list F)) (m : nat) :
  ∀ (a : nat) (g : G) (record : list (list F)) (r0 r1 r2 : list F),
    a + m ≤ length r0 → a + m ≤ length r1 → a + m ≤ length r2 →
    let ws := map normalize (trial_draws random_double (length returns) m g) in
    for_each (simulate_body random_double returns) (seq a m)
      (g, record, [r0; r1; r2]) =
    Some (after_trials random_double (length returns) m g,
          record ++ ws,
          [take a r0 ++ map (λ w, annualized_return w returns) ws ++ drop (a + m) r0;
           take a r1 ++ map (λ w, annualized_volatility w returns) ws ++ drop (a + m) r1;
           take a r2 ++ map (λ w, sharpe_of w returns) ws ++ drop (a + m) r2]).
Proof.
  induction m as [|m IH]; intros a g record r0 r1 r2 H0 H1 H2; simpl.
  - rewrite Nat.add_0_r, !take_drop, app_nil_r. reflexivity.
  - pose proof (np_random_random_length (length returns) g) as Hk.
    destruct (np_random_random random_double (length returns) g) as [d g'] eqn:Hd.
    simpl in Hk.
    rewrite portfolio_performance_eq by (by rewrite normalize_length).
    simpl.
    rewrite setitem_row0 by lia. simpl.
    rewrite setitem_row1 by lia. simpl.
    rewrite setitem_row2 by lia. simpl.
    rewrite IH by (rewrite length_insert; lia).
    rewrite !fill_row by lia.
    rewrite <- app_assoc. reflexivity.
Qed.

(** [simulate_portfolios] never raises, and its result in closed form. *)
Lemma simulate_portfolios_eq (returns : list (list F)) (n : nat) (g : G) :
  let ws := map normalize (trial_draws random_double (length returns) n g) in
  simulate_portfolios random_double returns n g =
  Some (ws,
        [map (λ w, annualized_return w returns) ws;
         map (λ w, annualized_volatility w returns) ws;
         map (λ w, sharpe_of w returns) ws],
        after_trials random_double (length returns) n g).
Proof.
  unfold simulate_portfolios, np_zeros. simpl.
  rewrite for_each_simulate by (rewrite length_replicate; lia).
  simpl. rewrite !drop_replicate, Nat.sub_diag. simpl.
  rewrite !app_nil_r. reflexivity.
Qed.
End SimulationFacts.

(** ** Facts of binary64 arithmetic

    Derived from the specification of the primitive operations
    ([FloatAxioms]) and their reference implementation ([SpecFloat]). *)

Module Binary64.
Local Open Scope float_scope.

Lemma of_SF_nan (y : float) : Prim2SF y = S754_nan → y = nan.
Proof. intros Hy. rewrite <- (SF2Prim_Prim2SF y), Hy. reflexivity. Qed.

Lemma fexp_canonical (m : positive) (e : Z) :
  bounded prec emax m e = true →
  fexp prec emax (Z.pos (digits2_pos m) + e) = e.
Proof.
  unfold bounded, canonical_mantissa. intros Hb.
  apply andb_prop in Hb as [Hc _]. by apply Z.eqb_eq in Hc.
Qed.




(** Adding to zero is exact, except that [0 + (-0)] is [+0]. *)
Lemma add_0_l (x : float) : 0 + x = x ∨ x = (-0)%float.
Proof.
  destruct (Prim2SF x) as [s|s| |s m e] eqn:Hx.
  - destruct s.
    + right. rewrite <- (SF2Prim_Prim2SF x), Hx. reflexivity.
    + left. apply Prim2SF_inj. rewrite FloatAxioms.add_spec, Hx. reflexivity.
  - left. apply Prim2SF_inj. rewrite FloatAxioms.add_spec, Hx. reflexivity.
  - left. apply Prim2SF_inj. rewrite FloatAxioms.add_spec, Hx. reflexivity.
  - left. apply Prim2SF_inj. rewrite FloatAxioms.add_spec, Hx. reflexivity.
Qed.



(** A quotient by zero (of either sign) is an infinity or NaN. *)
Lemma div_by_zero (m v : float) :
  (v =? 0) = true →
  m / v = infinity ∨ m / v = neg_infinity ∨ m / v = nan.
Proof.
  rewrite FloatAxioms.eqb_spec. intros Hv.
  assert (Hz : ∃ s, Prim2SF v = S754_zero s).
  { change (Prim2SF 0) with (S754_zero false) in Hv.
    destruct (Prim2SF v) as [s|s| |s mv ev];
      [ by exists s | destruct s; discriminate | discriminate
      | destruct s; discriminate ]. }
  destruct Hz as [s Hz].
  assert (Hq : Prim2SF (m / v) = S754_infinity false
               ∨ Prim2SF (m / v) = S754_infinity true
               ∨ Prim2SF (m / v) = S754_nan).
  { rewrite FloatAxioms.div_spec, Hz. unfold SF64div, SFdiv.
    destruct (Prim2SF m) as [sm|sm| |sm mm em]; auto;
      destruct sm, s; auto. }
  destruct Hq as [Hq|[Hq|Hq]]; [left|right;left|right;right];
    rewrite <- (SF2Prim_Prim2SF (m / v)), Hq; reflexivity.
Qed.

(** Rounding keeps the sign it is given, and does not produce NaN from a
    non-negative mantissa. *)
Lemma binary_round_aux_sign (mx ex : Z) (lx : location) :
  match binary_round_aux prec emax false mx ex lx with
  | S754_zero s | S754_infinity s | S754_finite s _ _ => s = false
  | S754_nan => True
  end.
Proof.
  unfold binary_round_aux.
  destruct (shr_fexp prec emax mx ex lx) as [mrs' e'].
  destruct (shr_fexp _ _ _ _ _) as [mrs'' e''].
  destruct (shr_m mrs''); auto.
  destruct (e'' <=? emax - prec)%Z; auto.
Qed.

Lemma shr_1_nonneg (mrs : shr_record) :
  (0 ≤ shr_m mrs)%Z → (0 ≤ shr_m (shr_1 mrs))%Z.
Proof.
  destruct mrs as [m r s]. simpl. intros Hm.
  destruct m as [|p|p]; [simpl; lia | destruct p; simpl; lia | lia].
Qed.

Lemma iter_shr_1_nonneg (p : positive) :
  ∀ mrs, (0 ≤ shr_m mrs)%Z → (0 ≤ shr_m (SpecFloat.iter_pos shr_1 p mrs))%Z.
Proof.
  induction p as [p IH|p IH|]; intros mrs Hm; simpl.
  - apply IH, IH. by apply shr_1_nonneg.
  - by apply IH, IH.
  - by apply shr_1_nonneg.
Qed.

Lemma shr_fexp_nonneg (m e : Z) (l : location) :
  (0 ≤ m)%Z → (0 ≤ shr_m (shr_fexp prec emax m e l).1)%Z.
Proof.
  intros Hm. unfold shr_fexp, shr.
  assert (Hr : (0 ≤ shr_m (shr_record_of_loc m l))%Z).
  { destruct l as [|[]]; simpl; lia. }
  destruct (fexp prec emax (Zdigits2 m + e) - e)%Z; simpl; auto.
  by apply iter_shr_1_nonneg.
Qed.

Lemma round_nearest_even_nonneg (m : Z) (l : location) :
  (0 ≤ m)%Z → (0 ≤ round_nearest_even m l)%Z.
Proof.
  intros Hm. destruct l as [|[]]; simpl; try lia.
  destruct (Z.even m); lia.
Qed.

Lemma binary_round_aux_not_nan (s : bool) (mx ex : Z) (lx : location) :
  (0 ≤ mx)%Z → binary_round_aux prec emax s mx ex lx ≠ S754_nan.
Proof.
  intros Hm. unfold binary_round_aux.
  pose proof (shr_fexp_nonneg mx ex lx Hm) as H1.
  destruct (shr_fexp prec emax mx ex lx) as [mrs' e']. simpl in H1.
  pose proof (shr_fexp_nonneg _ e' loc_Exact
    (round_nearest_even_nonneg _ (loc_of_shr_record mrs') H1)) as H2.
  destruct (shr_fexp _ _ _ _ _) as [mrs'' e'']. simpl in H2.
  destruct (shr_m mrs'') as [|p|p]; [discriminate| |lia].
  destruct (e'' <=? emax - prec)%Z; discriminate.
Qed.

Lemma SFsqrt_core_nonneg (m : positive) (e : Z) :
  (0 ≤ (SFsqrt_core_binary prec emax (Z.pos m) e).1.1)%Z.
Proof.
  unfold SFsqrt_core_binary.
  set (e' := Z.min _ _).
  set (m' := match (e - 2 * e')%Z with 0%Z => _ | Z.pos _ => _ | Z.neg _ => _ end).
  pose proof (Z.sqrtrem_sqrt m') as Hq.
  change (Z.sqrtrem m') with (IntDef.Z.sqrtrem m') in Hq.
  destruct (IntDef.Z.sqrtrem m') as [q r].
  simpl in *. subst q. apply Z.sqrt_nonneg.
Qed.

(** The square root: NaN or non-negative; NaN on a negative argument;
    non-negative on a non-negative one. *)
Lemma sqrt_sign (x : float) :
  PrimFloat.sqrt x = nan ∨ (0 <=? PrimFloat.sqrt x) = true.
Proof.
  rewrite FloatAxioms.leb_spec.
  change (Prim2SF 0) with (S754_zero false).
  pose proof (FloatAxioms.sqrt_spec x) as Hs. unfold SF64sqrt, SFsqrt in Hs.
  destruct (Prim2SF x) as [s|s| |s m e].
  - right. rewrite Hs. reflexivity.
  - destruct s; [left; by apply of_SF_nan | right; by rewrite Hs].
  - left; by apply of_SF_nan.
  - destruct s; [left; by apply of_SF_nan|].
    destruct (SFsqrt_core_binary prec emax (Z.pos m) e) as [[mz ez] lz].
    pose proof (binary_round_aux_sign mz ez lz) as Hsg.
    rewrite Hs.
    destruct (binary_round_aux prec emax false mz ez lz) as [s'|s'| |s' m' e'];
      try (subst s'; right; reflexivity).
    left; by apply of_SF_nan.
Qed.

Lemma sqrt_negative (x : float) : (x <? 0) = true → PrimFloat.sqrt x = nan.
Proof.
  rewrite FloatAxioms.ltb_spec. change (Prim2SF 0) with (S754_zero false).
  intros Hlt. apply Prim2SF_inj. rewrite FloatAxioms.sqrt_spec.
  change (Prim2SF nan) with S754_nan. unfold SF64sqrt, SFsqrt.
  destruct (Prim2SF x) as [s|s| |s m e]; try discriminate; auto;
    destruct s; try discriminate; reflexivity.
Qed.

Lemma sqrt_nonneg (x : float) :
  (0 <=? x) = true → (0 <=? PrimFloat.sqrt x) = true.
Proof.
  rewrite !FloatAxioms.leb_spec, FloatAxioms.sqrt_spec.
  change (Prim2SF 0) with (S754_zero false). unfold SF64sqrt, SFsqrt.
  destruct (Prim2SF x) as [s|s| |s m e]; auto.
  - by destruct s.
  - destruct s; [discriminate|]. intros _.
    pose proof (SFsqrt_core_nonneg m e) as Hq.
    destruct (SFsqrt_core_binary prec emax (Z.pos m) e) as [[mz ez] lz].
    simpl in Hq.
    pose proof (binary_round_aux_sign mz ez lz) as Hsg.
    pose proof (binary_round_aux_not_nan false mz ez lz Hq) as Hnn.
    destruct (binary_round_aux prec emax false mz ez lz) as [s'|s'| |s' m' e'];
      try (subst s'; reflexivity).
    congruence.
Qed.


Lemma pos_nonneg (x : float) : (0 <? x) = true → (0 <=? x) = true.
Proof.
  rewrite FloatAxioms.ltb_spec, FloatAxioms.leb_spec.
  change (Prim2SF 0) with (S754_zero false).
  destruct (Prim2SF x) as [s|s| |s m e]; try discriminate;
    destruct s; try discriminate; reflexivity.
Qed.
End Binary64.

(** ** The optimisation *)

Section OptimizationFacts.
Context {F : Type} `{Scalar F}.
Context (minimize :
  (list F → option F) → list F → list (F * F) → list (Constraint F) →
  option (OptimizeResult F)).

(** [optimize_portfolio] poses the problem (objective [neg_sharpe], uniform
    initial guess, bounds [(0, 1)] for every asset, the constraint that the
    weights sum to one) and returns what the solver returns, unexamined. *)
Lemma optimize_portfolio_eq (returns : list (list F)) :
  length returns ≠ 0 →
  optimize_portfolio minimize returns =
  minimize (λ weights, neg_sharpe weights returns)
    (replicate (length returns) (of_int 1 ⊘ of_int (length returns)))
    (unit_bounds (length returns)) [sum_to_one].
Proof.
  intros Hn. unfold optimize_portfolio.
  destruct (decide (length returns = 0)); [contradiction | reflexivity].
Qed.

Lemma optimize_portfolio_no_assets :
  optimize_portfolio minimize [] = None.
Proof. reflexivity. Qed.
End OptimizationFacts.

(** ** The specification's [evaluate] *)

Section EvaluateFacts.
Local Open Scope float_scope.
Import Binary64.

(** The volatility that [evaluate] reports is [≥ 0] for every input, and
    its Sharpe ratio is the marker DegenerateVolatility exactly when the
    volatility is zero. *)
Lemma spec_evaluate_volatility_nonneg
    (weights : list float) (returns : list (list float)) (periodsPerYear : nat)
    (m v : float) (s : SharpeResult) :
  spec_evaluate weights returns periodsPerYear = Some (m, v, s) →
  (0 <=? v) = true ∧ ((v =? 0) = true ↔ s = DegenerateVolatility).
Proof.
  unfold spec_evaluate.
  destruct (decide (length weights = length returns)); [|discriminate].
  cbv zeta. intros [= <- <- <-].
  set (q := np_dot weights _).
  destruct (0 <? q) eqn:Hq.
  - split; [by apply sqrt_nonneg, pos_nonneg|].
    destruct (PrimFloat.sqrt q =? 0); split; intros; congruence.
  - change (PrimFloat.sqrt 0) with 0. by split.
Qed.

(** Specification, section 8: on a return table of one row [evaluate]
    yields the volatility 0 and DegenerateVolatility. *)
Lemma spec_evaluate_one_row_table :
  spec_evaluate [1] [[0x1p-6]] 252 = Some (0x1.f8p1, 0, DegenerateVolatility).
Proof. by vm_compute. Qed.
End EvaluateFacts.

(** * Part III: the statements of the specification *)

(** ** PerformanceModel: degenerate volatility and the sign of the volatility *)

Section PerformanceClaims.
Local Open Scope float_scope.
Import Binary64.

(** C1 (as stated, refuted).  The specification asks that a volatility of
    exactly zero be signalled by a distinct marker and never by an
    infinity.  For one asset whose two period returns are both [2^-7] the
    volatility is [0] and the Sharpe ratio returned is [+infinity]. *)
Lemma C1_zero_volatility_returns_infinity :
  portfolio_performance [1] [[0x1p-7; 0x1p-7]]
  = Some (0x1.f8p0, 0, infinity).
Proof. vm_compute. reflexivity. Qed.

(** C1 (amended).  For weights and a return table of matching lengths
    [portfolio_performance] returns an ordinary triple of numbers, whose
    third component is the plain IEEE quotient of the annualized return by
    the volatility; whenever the computed volatility is zero that quotient
    is an infinity or NaN.  No marker is produced. *)
Theorem C1_zero_volatility_sharpe_is_quotient_by_zero
    (weights : list float) (returns : list (list float)) :
  length weights = length returns →
  ∃ mean_return volatility sharpe_ratio,
    portfolio_performance weights returns
      = Some (mean_return, volatility, sharpe_ratio)
    ∧ sharpe_ratio = mean_return / volatility
    ∧ ((volatility =? 0) = true →
       sharpe_ratio = infinity ∨ sharpe_ratio = neg_infinity
       ∨ sharpe_ratio = nan).
Proof.
  intros Hlen. rewrite portfolio_performance_eq by done.
  eexists _, _, _. split; [reflexivity|].
  unfold sharpe_of. split; [reflexivity|].
  apply div_by_zero.
Qed.

Lemma C1_zero_volatility_witness :
  ∃ mean_return volatility sharpe_ratio,
    portfolio_performance [1] [[0x1p-7; 0x1p-7]]
      = Some (mean_return, volatility, sharpe_ratio)
    ∧ sharpe_ratio = mean_return / volatility
    ∧ ((volatility =? 0) = true →
       sharpe_ratio = infinity ∨ sharpe_ratio = neg_infinity
       ∨ sharpe_ratio = nan).
Proof.
  exact (C1_zero_volatility_sharpe_is_quotient_by_zero
           [1] [[0x1p-7; 0x1p-7]] eq_refl).
Defined.

(** C2 (as stated, refuted).  Two assets with period returns [3/64, 1/64]
    and [-1/64, 5/64], and the weights [0.75 - 2^-52] and [0.25 + 2^-52]:
    the weights lie in [0,1] and add up to [1], the quadratic form comes
    out negative, it reaches the square root unclamped, and the reported
    volatility is NaN, which is not [≥ 0]. *)
Lemma C2_negative_quadratic_form_gives_nan :
  let weights := [0x1.7fffffffffffep-1; 0x1.0000000000004p-2] in
  let returns := [[0x3p-6; 0x1p-6]; [-0x1p-6; 0x5p-6]] in
  np_sum weights = 1
  ∧ forallb (λ w, (0 <=? w) && (w <=? 1)) weights = true
  ∧ (quadratic_form weights returns <? 0) = true
  ∧ ∃ mean_return sharpe_ratio,
      portfolio_performance weights returns
        = Some (mean_return, nan, sharpe_ratio)
      ∧ (0 <=? nan) = false.
Proof.
  cbv zeta. split; [by vm_compute|]. split; [by vm_compute|].
  split; [by vm_compute|].
  eexists _, _. split; [vm_compute; reflexivity | reflexivity].
Qed.

(** C2 (amended).  The reported volatility is the square root of the
    quadratic form [weights' (Cov * 252) weights] taken as it is computed,
    without clamping.  It is non-negative whenever the quadratic form is,
    NaN whenever the quadratic form is negative, and in every case either
    non-negative or NaN. *)
Theorem C2_volatility_is_unclamped_square_root
    (weights : list float) (returns : list (list float)) :
  length weights = length returns →
  ∃ mean_return volatility sharpe_ratio,
    portfolio_performance weights returns
      = Some (mean_return, volatility, sharpe_ratio)
    ∧ volatility = PrimFloat.sqrt (quadratic_form weights returns)
    ∧ (volatility = nan ∨ (0 <=? volatility) = true)
    ∧ ((0 <=? quadratic_form weights returns) = true →
       (0 <=? volatility) = true)
    ∧ ((quadratic_form weights returns <? 0) = true → volatility = nan).
Proof.
  intros Hlen. rewrite portfolio_performance_eq by done.
  eexists _, _, _. split; [reflexivity|].
  unfold annualized_volatility. simpl.
  split; [reflexivity|]. split; [apply sqrt_sign|].
  split; [apply sqrt_nonneg | apply sqrt_negative].
Qed.

Lemma C2_volatility_witness :
  ∃ mean_return volatility sharpe_ratio,
    portfolio_performance [0x1p-1; 0x1p-1] [[0x3p-6; 0x1p-6]; [-0x1p-6; 0x5p-6]]
      = Some (mean_return, volatility, sharpe_ratio)
    ∧ volatility = PrimFloat.sqrt
        (quadratic_form [0x1p-1; 0x1p-1] [[0x3p-6; 0x1p-6]; [-0x1p-6; 0x5p-6]])
    ∧ (volatility = nan ∨ (0 <=? volatility) = true)
    ∧ ((0 <=? quadratic_form [0x1p-1; 0x1p-1]
                [[0x3p-6; 0x1p-6]; [-0x1p-6; 0x5p-6]]) = true →
       (0 <=? volatility) = true)
    ∧ ((quadratic_form [0x1p-1; 0x1p-1]
          [[0x3p-6; 0x1p-6]; [-0x1p-6; 0x5p-6]] <? 0) = true →
       volatility = nan).
Proof.
  exact (C2_volatility_is_unclamped_square_root
           [0x1p-1; 0x1p-1] [[0x3p-6; 0x1p-6]; [-0x1p-6; 0x5p-6]] eq_refl).
Defined.
End PerformanceClaims.

(** ** PerformanceModel: the annualized return and the annualization factor *)

Section ReturnClaims.
Local Open Scope float_scope.
Import Binary64.






End ReturnClaims.

(** ** MonteCarloSampler *)

Section SamplerClaims.
Context {F : Type} `{Scalar F}.
Context {G : Type} (random_double : G → F * G).

(** C7.  Reproducibility: two runs of [simulate_portfolios] started from
    the same generator state with the same number of trials return, and
    produce the same sequence of weight vectors (and leave the generator
    in the same state).  The return table enters the weights only through
    its number of columns, so this holds for the same table and, more
    generally, for any two tables over the same number of assets. *)
Theorem C7_same_seed_same_weight_sequence
    (returns1 returns2 : list (list F)) (trials1 trials2 : nat)
    (seed1 seed2 : G) :
  seed1 = seed2 → trials1 = trials2 →
  length returns1 = length returns2 →
  ∃ weights_record results1 results2 g',
    simulate_portfolios random_double returns1 trials1 seed1
      = Some (weights_record, results1, g')
    ∧ simulate_portfolios random_double returns2 trials2 seed2
      = Some (weights_record, results2, g').
Proof.
  intros -> -> Hk. rewrite !simulate_portfolios_eq. cbv zeta.
  rewrite Hk. eexists _, _, _, _. split; reflexivity.
Qed.

(** C8.  With [num_portfolios = 0] the loop body never runs:
    [simulate_portfolios] returns, without raising, an empty weights
    record and a results array of three rows with no column, and draws
    nothing from the generator. *)
Theorem C8_zero_trials_empty_result (returns : list (list F)) (g : G) :
  simulate_portfolios random_double returns 0 g = Some ([], [[]; []; []], g).
Proof.
  unfold simulate_portfolios, np_zeros.
  change (seq 0 0) with (@nil nat).
  cbn [for_each replicate]. reflexivity.
Qed.

(** C9.  For every return table and every number of trials (in particular
    every positive one) [simulate_portfolios] returns a parallel pairing:
    the weights record holds exactly [num_portfolios] vectors, each with
    one weight per column of the table; the results array has three rows
    of [num_portfolios] entries; and for every index [i] the [i]-th column
    of the results is [portfolio_performance] of the [i]-th recorded
    vector and the same table. *)
Theorem C9_results_parallel_to_weights
    (returns : list (list F)) (num_portfolios : nat) (g : G) :
  ∃ (weights_record : list (list F)) (means vols sharpes : list F) (g' : G),
    simulate_portfolios random_double returns num_portfolios g
      = Some (weights_record, [means; vols; sharpes], g')
    ∧ length weights_record = num_portfolios
    ∧ Forall (λ w, length w = length returns) weights_record
    ∧ length means = num_portfolios
    ∧ length vols = num_portfolios
    ∧ length sharpes = num_portfolios
    ∧ ∀ i, i < num_portfolios →
        ∃ w m v s,
          weights_record !! i = Some w
          ∧ means !! i = Some m ∧ vols !! i = Some v ∧ sharpes !! i = Some s
          ∧ portfolio_performance w returns = Some (m, v, s).
Proof.
  rewrite simulate_portfolios_eq. cbv zeta.
  set (ws := map normalize _).
  assert (Hn : length ws = num_portfolios).
  { unfold ws. by rewrite length_map, trial_draws_length. }
  assert (Hw : Forall (λ w, length w = length returns) ws).
  { unfold ws. apply Forall_fmap.
    eapply Forall_impl; [apply trial_draws_widths|].
    intros d Hd. simpl. by rewrite normalize_length. }
  eexists ws, _, _, _, _. split; [reflexivity|].
  rewrite !length_map. repeat (split; [done|]).
  intros i Hi.
  destruct (lookup_lt_is_Some_2 ws i) as [w Hwi]; [lia|].
  exists w, (annualized_return w returns),
    (annualized_volatility w returns), (sharpe_of w returns).
  rewrite !list_lookup_fmap, Hwi. simpl.
  repeat (split; [reflexivity|]).
  apply portfolio_performance_eq.
  rewrite Forall_forall in Hw. apply Hw. by eapply list_elem_of_lookup_2.
Qed.
End SamplerClaims.

Lemma C7_same_seed_witness :
  ∃ weights_record results1 results2 g',
    simulate_portfolios replay [[0x3p-6; 0x1p-6]; [-0x1p-6; 0x5p-6]]%float 2
        [0x1p-1; 0x1p-2; 0x1p-3; 0x1p-3]%float
      = Some (weights_record, results1, g')
    ∧ simulate_portfolios replay [[0x3p-6; 0x1p-6]; [-0x1p-6; 0x5p-6]]%float 2
        [0x1p-1; 0x1p-2; 0x1p-3; 0x1p-3]%float
      = Some (weights_record, results2, g').
Proof.
  exact (C7_same_seed_same_weight_sequence replay
           [[0x3p-6; 0x1p-6]; [-0x1p-6; 0x5p-6]]%float
           [[0x3p-6; 0x1p-6]; [-0x1p-6; 0x5p-6]]%float 2 2
           [0x1p-1; 0x1p-2; 0x1p-3; 0x1p-3]%float
           [0x1p-1; 0x1p-2; 0x1p-3; 0x1p-3]%float
           eq_refl eq_refl eq_refl).
Defined.

(** *** Feasibility of the sampled weights *)

(** C3 (violated by the code).  [np.random.random] draws from the half-open
    interval [[0, 1)], so a draw can be [0.0], and lines 54 and 55 divide by
    the sum of the draws without testing it.  With one asset and the draw
    [0.0] the weight is [0.0 / 0.0]: the recorded vector is [[nan]], whose
    element is not in [[0,1]] and whose sum is not within [1e-9] of [1]
    ([0x1.12e0be826d695p-30] is the double nearest to [1e-9]). *)
Lemma C3_zero_draw_gives_nan_weights :
  (∃ results g',
     simulate_portfolios replay [[0x3p-6; 0x1p-6]]%float 1 [0%float]
       = Some ([[nan]], results, g'))
  ∧ (0 <=? nan)%float = false
  ∧ (nan <=? 1)%float = false
  ∧ (abs (np_sum [nan] - 1) <=? 0x1.12e0be826d695p-30)%float = false.
Proof.
  split; [|by vm_compute].
  eexists _, _. vm_compute. reflexivity.
Qed.

(** * Part IV: further properties of the code *)

(** ** Dropping incomplete rows *)

Section ReturnsFacts.
Context {F : Type} `{Scalar F}.

Lemma filter_all {A : Type} (P : A → Prop) `{∀ x, Decision (P x)} (l : list A) :
  Forall P l → filter P l = l.
Proof.
  induction 1 as [|x l Hx _ IH]; [done|].
  rewrite filter_cons_True by done. by rewrite IH.
Qed.

Lemma omap_all_Some {A B : Type} (f : A → option B) (P : B → Prop) (l : list A) :
  (∀ t, t ∈ l → ∃ v, f t = Some v ∧ P v) →
  length (omap f l) = length l ∧ Forall P (omap f l).
Proof.
  induction l as [|t l IH]; intros Hl; [by split|].
  destruct (Hl t) as (v & Hv & HP); [left|].
  destruct IH as [IHlen IHP]; [intros t' Ht'; apply Hl; by right|].
  csimpl. rewrite Hv. csimpl. split; [by rewrite IHlen | by constructor].
Qed.

Lemma omap_fmap_S {B : Type} (f : nat → option B) (l : list nat) :
  omap f (S <$> l) = omap (λ t, f (S t)) l.
Proof.
  induction l as [|t l IH]; [done|]. csimpl. rewrite IH. done.
Qed.

(** Reading the cells of a column back, row by row. *)
Lemma omap_lookup_all (vs : list F) :
  omap (λ t, mjoin ((Some <$> vs) !! t)) (seq 0 (length vs)) = vs.
Proof.
  induction vs as [|v vs IH]; [done|].
  cbn [length seq]. rewrite <- fmap_S_seq. csimpl.
  rewrite omap_fmap_S. simpl. by rewrite IH.
Qed.

Lemma row_complete_cell (df : list (list (option F))) (t : nat)
    (c : list (option F)) :
  row_complete df t = true → c ∈ df →
  ∃ v, c !! t = Some (Some v) ∧ fis_nan v = false.
Proof.
  unfold row_complete. intros Hrow Hc.
  induction df as [|c0 df IH]; [by apply elem_of_nil in Hc|].
  simpl in Hrow. apply andb_prop in Hrow as [H0 Hrest].
  apply elem_of_cons in Hc as [->|Hc]; [|by apply IH].
  destruct (c0 !! t) as [[v|]|]; try discriminate.
  exists v. split; [done|]. simpl in H0. by destruct (fis_nan v).
Qed.

Lemma row_complete_intro (df : list (list (option F))) (t : nat) :
  (∀ c, c ∈ df → ∃ v, c !! t = Some (Some v) ∧ fis_nan v = false) →
  row_complete df t = true.
Proof.
  unfold row_complete. induction df as [|c0 df IH]; intros Hdf; [done|].
  simpl. destruct (Hdf c0) as (v & -> & Hv); [left|].
  simpl. rewrite Hv. simpl. apply IH. intros c Hc. apply Hdf. by right.
Qed.

(** What [dropna] returns is rectangular and holds no NaN. *)
Lemma dropna_shape (df : list (list (option F))) :
  let n := length (filter (λ t, row_complete df t = true) (seq 0 (nrows df))) in
  length (dropna df) = length df
  ∧ Forall (λ c, length c = n ∧ Forall (λ v, fis_nan v = false) c) (dropna df).
Proof.
  cbv zeta. unfold dropna. split; [by rewrite length_map|].
  apply Forall_fmap, Forall_forall. intros c Hc. simpl.
  apply omap_all_Some. intros t Ht.
  apply list_elem_of_filter in Ht as [Ht _].
  destruct (row_complete_cell df t c Ht Hc) as (v & Hv & Hnan).
  exists v. by rewrite Hv.
Qed.

(** A frame whose first row is missing and whose other cells are numbers
    loses exactly its first row. *)
Lemma dropna_first_row (V : list (list F)) (n : nat) :
  V ≠ [] →
  Forall (λ vs, length vs = n ∧ Forall (λ v, fis_nan v = false) vs) V →
  dropna (map (λ vs, None :: (Some <$> vs)) V) = V.
Proof.
  intros Hne HV. unfold dropna.
  assert (Hrows : nrows (map (λ vs : list F, None :: (Some <$> vs)) V) = S n).
  { destruct V as [|vs V]; [done|]. simpl. rewrite length_map.
    apply Forall_cons in HV as [[-> _] _]. done. }
  rewrite Hrows. cbn [seq].
  rewrite filter_cons_False.
  2:{ intros Hrow. destruct V as [|vs V]; [done|].
      destruct (row_complete_cell _ 0 (None :: (Some <$> vs)) Hrow) as (v & Hv & _);
        [left|]. discriminate. }
  rewrite filter_all.
  2:{ apply Forall_forall. intros t Ht. apply elem_of_seq in Ht.
      apply row_complete_intro. intros c Hc.
      apply list_elem_of_fmap in Hc as (vs & -> & Hvs).
      rewrite Forall_forall in HV. destruct (HV vs Hvs) as [Hlen Hnan].
      destruct t as [|t]; [lia|]. simpl.
      destruct (lookup_lt_is_Some_2 vs t) as [v Hv]; [lia|].
      exists v. rewrite list_lookup_fmap, Hv. split; [done|].
      rewrite Forall_forall in Hnan. apply Hnan.
      by eapply list_elem_of_lookup_2. }
  rewrite <- list_fmap_compose.
  rewrite <- (list_fmap_id V) at 2. apply Forall_fmap_ext_1.
  eapply Forall_impl; [exact HV|]. intros vs [Hlen _]. simpl.
  rewrite <- fmap_S_seq, omap_fmap_S. simpl. rewrite <- Hlen.
  apply omap_lookup_all.
Qed.

(** A column divided (or otherwise combined) with its own shift: the first
    cell is missing, the others combine each value with the one before. *)
Lemma zip_with_shift1 (h : F → F → F) (c : list F) :
  c ≠ [] →
  zip_with (λ x prev, option_map (λ y, h x y) prev) c (shift1 c)
  = None :: (Some <$> zip_with h (drop 1 c) c).
Proof.
  destruct c as [|x r]; [done|]. intros _. unfold shift1.
  cbn [length take zip_with option_map drop]. f_equal.
  rewrite <- (fmap_take _ (length r) (x :: r)).
  rewrite zip_with_fmap_r, zip_with_take_r. cbn [drop option_map].
  generalize (x :: r). intros k.
  revert k. induction r as [|y r IH]; intros [|z k]; simpl; try done.
  by rewrite IH.
Qed.
End ReturnsFacts.

(** ** Log returns *)

Section LogReturnsFacts.
Context {F : Type} `{Scalar F} `{Logarithm F}.

Lemma fmap_zip_with_compose {A B C D : Type} (g : C → D) (f : A → B → C)
    (l : list A) (k : list B) :
  g <$> zip_with f l k = zip_with (λ a b, g (f a b)) l k.
Proof.
  revert k. induction l as [|a l IH]; intros [|b k]; simpl; try done.
  by rewrite <- IH.
Qed.

Lemma shift1_length (c : list F) : length (shift1 c) = length c.
Proof. unfold shift1. rewrite length_take. simpl. rewrite length_map. lia. Qed.

Lemma log_column_length (c : list F) :
  length (np_log (ratio_to_previous c)) = length c.
Proof.
  unfold np_log, ratio_to_previous.
  rewrite length_map, length_zip_with, shift1_length. lia.
Qed.

(** The column of log ratios of a non-empty column of prices. *)
Lemma log_column_eq (c : list F) :
  c ≠ [] →
  np_log (ratio_to_previous c)
  = None :: (Some <$> zip_with (λ p q, flog (p ⊘ q)) (drop 1 c) c).
Proof.
  intros Hc. unfold np_log, ratio_to_previous.
  rewrite (zip_with_shift1 fdiv c Hc). cbn [map option_map]. f_equal.
  rewrite <- fmap_zip_with_compose, <- !list_fmap_compose.
  by apply list_fmap_ext.
Qed.

(** The first row of the table of log ratios is never complete. *)
Lemma log_rows_kept_bound (data : list (list F)) (T : nat) :
  data ≠ [] →
  Forall (λ c, length c = T) data →
  let df := map (λ c, np_log (ratio_to_previous c)) data in
  length (filter (λ t, row_complete df t = true) (seq 0 (nrows df))) ≤ T - 1.
Proof.
  intros Hne Hrect df.
  destruct data as [|c0 data]; [done|].
  apply Forall_cons in Hrect as [Hc0 _].
  assert (Hrows : nrows df = T).
  { unfold df. simpl. by rewrite log_column_length. }
  rewrite Hrows. destruct T as [|T]; [done|].
  cbn [seq]. rewrite filter_cons_False.
  - etransitivity; [apply length_filter|]. rewrite length_seq. lia.
  - intros Hrow.
    destruct (row_complete_cell df 0 (np_log (ratio_to_previous c0)) Hrow)
      as (v & Hv & _); [unfold df; left|].
    rewrite log_column_eq in Hv by (intros ->; discriminate). discriminate.
Qed.

(** X4.  What [compute_log_returns] returns for a table of prices with at
    least one column and [T] rows is a table with the same number of
    columns, all of one length, which is at most [T - 1] (the first row is
    always dropped), and it holds no NaN. *)
Theorem compute_log_returns_shape (data : list (list F)) (T : nat) :
  data ≠ [] →
  Forall (λ c, length c = T) data →
  ∃ n, n ≤ T - 1
    ∧ length (compute_log_returns data) = length data
    ∧ Forall (λ c, length c = n ∧ Forall (λ v, fis_nan v = false) c)
        (compute_log_returns data).
Proof.
  intros Hne Hrect. unfold compute_log_returns.
  set (df := map (λ c, np_log (ratio_to_previous c)) data).
  destruct (dropna_shape df) as [Hlen Hcols].
  exists (length (filter (λ t, row_complete df t = true) (seq 0 (nrows df)))).
  split; [by apply log_rows_kept_bound|].
  split; [by rewrite Hlen; unfold df; rewrite length_map | exact Hcols].
Qed.

(** Columns that are missing in their first row and numbers below it lose
    exactly the first row. *)
Lemma dropna_columns (g : list F → list (option F)) (k : list F → list F)
    (data : list (list F)) (T : nat) :
  data ≠ [] →
  Forall (λ c, length c = T) data →
  g [] = [] →
  (∀ c, c ≠ [] → g c = None :: (Some <$> k c)) →
  (∀ c, length (k c) = length c - 1) →
  Forall (λ c, Forall (λ v, fis_nan v = false) (k c)) data →
  dropna (map g data) = map k data.
Proof.
  intros Hne Hrect Hnil Hcons Hlen Hnum.
  destruct T as [|T].
  - assert (Hempty : Forall (λ c, c = []) data).
    { eapply Forall_impl; [exact Hrect|]. intros c Hc. by destruct c. }
    unfold dropna.
    assert (Hrows : nrows (map g data) = 0).
    { destruct data as [|c0 data]; [done|].
      apply Forall_cons in Hempty as [-> _]. simpl. by rewrite Hnil. }
    rewrite Hrows. cbn [seq]. rewrite filter_nil.
    rewrite <- list_fmap_compose. apply Forall_fmap_ext_1.
    eapply Forall_impl; [exact Hempty|]. intros c ->. unfold compose. simpl.
    specialize (Hlen []). by destruct (k []).
  - transitivity (dropna (map (λ vs, None :: (Some <$> vs)) (map k data))).
    { f_equal. rewrite <- list_fmap_compose. apply Forall_fmap_ext_1.
      eapply Forall_impl; [exact Hrect|]. intros c Hc. simpl.
      apply Hcons. intros ->. discriminate. }
    apply (dropna_first_row _ T).
    + destruct data; [done|discriminate].
    + apply Forall_fmap, Forall_forall. intros c Hc.
      rewrite Forall_forall in Hrect, Hnum. simpl. split; [|by apply Hnum].
      rewrite Hlen, (Hrect c Hc). lia.
Qed.

Lemma length_zip_with_drop1 (h : F → F → F) (c : list F) :
  length (zip_with h (drop 1 c) c) = length c - 1.
Proof. rewrite length_zip_with, length_drop. lia. Qed.

(** When every log ratio is a number, exactly the first row is dropped. *)
Lemma compute_log_returns_eq (data : list (list F)) (T : nat) :
  data ≠ [] →
  Forall (λ c, length c = T) data →
  Forall (λ c, Forall (λ v, fis_nan v = false)
                 (zip_with (λ p q, flog (p ⊘ q)) (drop 1 c) c)) data →
  compute_log_returns data
  = map (λ c, zip_with (λ p q, flog (p ⊘ q)) (drop 1 c) c) data.
Proof.
  intros Hne Hrect Hnum. unfold compute_log_returns.
  apply (dropna_columns _ _ data T); try done.
  - intros c Hc. by apply log_column_eq.
  - intros c. apply length_zip_with_drop1.
Qed.

(** X5.  For a table of prices with at least one column and [T] rows in
    every column, in which the logarithm of the ratio of every price to the
    price before it is a number (not NaN), [compute_log_returns] drops
    exactly the first row: every column of the
    result has [T - 1] entries, and the entry for row [t + 1] is
    [log (p(t+1) / p(t))], the logarithm and the quotient as they are
    computed. *)
Theorem compute_log_returns_drops_first_row (data : list (list F)) (T : nat) :
  data ≠ [] →
  Forall (λ c, length c = T) data →
  Forall (λ c, Forall (λ v, fis_nan v = false)
                 (zip_with (λ p q, flog (p ⊘ q)) (drop 1 c) c)) data →
  compute_log_returns data
    = map (λ c, zip_with (λ p q, flog (p ⊘ q)) (drop 1 c) c) data
  ∧ Forall (λ r, length r = T - 1) (compute_log_returns data).
Proof.
  intros Hne Hrect Hnum.
  pose proof (compute_log_returns_eq data T Hne Hrect Hnum) as Heq.
  split; [exact Heq|]. rewrite Heq.
  apply Forall_fmap. eapply Forall_impl; [exact Hrect|].
  intros c Hc. simpl. by rewrite length_zip_with_drop1, Hc.
Qed.
End LogReturnsFacts.

Lemma compute_log_returns_shape_witness :
  ∃ n, n ≤ 3 - 1
    ∧ length (@compute_log_returns float binary64 {| flog := λ x, x |}
                [[1; 2; 4]; [3; 3; 6]]%float)
      = length [[1; 2; 4]; [3; 3; 6]]%float
    ∧ Forall (λ c, length c = n ∧ Forall (λ v, fis_nan v = false) c)
        (@compute_log_returns float binary64 {| flog := λ x, x |}
           [[1; 2; 4]; [3; 3; 6]]%float).
Proof.
  apply (@compute_log_returns_shape float binary64 {| flog := λ x, x |}
           [[1; 2; 4]; [3; 3; 6]]%float 3);
    [discriminate | by repeat constructor].
Defined.

Lemma compute_log_returns_drops_first_row_witness :
  @compute_log_returns float binary64 {| flog := λ x, x |}
      [[1; 2; 4]; [3; 3; 6]]%float
    = map (λ c, zip_with (λ p q, p / q)%float (drop 1 c) c)
        [[1; 2; 4]; [3; 3; 6]]%float
  ∧ Forall (λ r, length r = 3 - 1)
      (@compute_log_returns float binary64 {| flog := λ x, x |}
         [[1; 2; 4]; [3; 3; 6]]%float).
Proof.
  apply (@compute_log_returns_drops_first_row float binary64 {| flog := λ x, x |}
           [[1; 2; 4]; [3; 3; 6]]%float 3);
    [discriminate | by repeat constructor |].
  repeat (first [apply Forall_nil_2 | apply Forall_cons_2]); reflexivity.
Defined.

(** ** Cumulative returns *)

Section CumulativeFacts.
Context {F : Type} `{Scalar F}.

Lemma pct_change_length (c : list F) : length (pct_change c) = length c.
Proof.
  unfold pct_change. rewrite length_zip_with, shift1_length. lia.
Qed.

Lemma pct_change_first (c : list F) :
  c ≠ [] → pct_change c !! 0 = Some None.
Proof.
  intros Hc. unfold pct_change.
  by rewrite (zip_with_shift1 (λ x y, (x ⊘ y) ⊖ of_int 1) c Hc).
Qed.

(** The first row of the table of percentage changes is never complete. *)
Lemma pct_rows_kept_bound (data : list (list F)) (T : nat) :
  data ≠ [] →
  Forall (λ c, length c = T) data →
  let df := map pct_change data in
  length (filter (λ t, row_complete df t = true) (seq 0 (nrows df))) ≤ T - 1.
Proof.
  intros Hne Hrect df.
  destruct data as [|c0 data]; [done|].
  apply Forall_cons in Hrect as [Hc0 _].
  assert (Hrows : nrows df = T).
  { unfold df. simpl. by rewrite pct_change_length. }
  rewrite Hrows. destruct T as [|T]; [done|].
  cbn [seq]. rewrite filter_cons_False.
  - etransitivity; [apply length_filter|]. rewrite length_seq. lia.
  - intros Hrow.
    destruct (row_complete_cell df 0 (pct_change c0) Hrow)
      as (v & Hv & _); [unfold df; left|].
    rewrite pct_change_first in Hv by (intros ->; discriminate). discriminate.
Qed.

Lemma cumprod_from_length (c : list F) (acc : F) :
  length (cumprod_from acc c) = length c.
Proof.
  revert acc. induction c as [|x c IH]; intros acc; [done|].
  simpl. by rewrite IH.
Qed.

Lemma cumprod_length (c : list F) : length (cumprod c) = length c.
Proof. destruct c as [|x c]; [done|]. simpl. by rewrite cumprod_from_length. Qed.

(** X7.  For a table of prices without missing values, with at least one
    column and [T] rows in every column, and as many weights as columns,
    [plot_cumulative_returns] computes its two series without raising: the
    cumulative returns of the stocks have one column per stock, all of one
    length, which is at most [T - 1] (the first row, which has no
    percentage change, is always dropped), and the portfolio's line
    [cumulative_returns @ optimal_weights] has one point per row of them. *)
Theorem plot_cumulative_returns_shape
    (data : list (list F)) (T : nat) (optimal_weights : list F) :
  data ≠ [] →
  Forall (λ c, length c = T) data →
  Forall (Forall (λ p, fis_nan p = false)) data →
  length optimal_weights = length data →
  ∃ portfolio_cum_returns n,
    plot_cumulative_returns data optimal_weights
      = Some (portfolio_cum_returns, cumulative_returns data)
    ∧ n ≤ T - 1
    ∧ length (cumulative_returns data) = length data
    ∧ Forall (λ c, length c = n) (cumulative_returns data)
    ∧ length portfolio_cum_returns = n.
Proof.
  intros Hne Hrect _ Hlen.
  pose proof (pct_rows_kept_bound data T Hne Hrect) as Hbound.
  cbv zeta in Hbound.
  set (df := map pct_change data) in *.
  destruct (dropna_shape df) as [Hcols Hshape]. cbv zeta in Hshape.
  set (n := length (filter (λ t, row_complete df t = true) (seq 0 (nrows df))))
    in *.
  assert (Hcum : length (cumulative_returns data) = length data).
  { unfold cumulative_returns. fold df.
    rewrite !length_map, Hcols. unfold df. by rewrite length_map. }
  assert (Hall : Forall (λ c, length c = n) (cumulative_returns data)).
  { unfold cumulative_returns. fold df.
    apply Forall_fmap, Forall_fmap.
    eapply Forall_impl; [exact Hshape|]. intros c [Hc _]. simpl.
    by rewrite cumprod_length, length_map. }
  assert (Hrows : nrows (cumulative_returns data) = n).
  { destruct (cumulative_returns data) as [|c0 cs] eqn:Heq.
    - simpl in Hcum. destruct data; [done|discriminate].
    - apply Forall_cons in Hall as [Hc0 _]. exact Hc0. }
  unfold plot_cumulative_returns.
  rewrite decide_True by (by rewrite Hcum).
  eexists _, n. split; [reflexivity|].
  split; [exact Hbound|]. split; [exact Hcum|]. split; [exact Hall|].
  unfold frame_rows. by rewrite !length_map, length_seq.
Qed.

(** With a number of weights other than the number of columns, the product
    of line 100 raises. *)
Lemma plot_cumulative_returns_mismatch
    (data : list (list F)) (optimal_weights : list F) :
  length optimal_weights ≠ length data →
  plot_cumulative_returns data optimal_weights = None.
Proof.
  intros Hne. unfold plot_cumulative_returns.
  rewrite decide_False; [done|].
  unfold cumulative_returns, dropna. by rewrite !length_map.
Qed.
End CumulativeFacts.

Lemma plot_cumulative_returns_shape_witness :
  ∃ portfolio_cum_returns n,
    plot_cumulative_returns [[1; 2; 4]; [3; 3; 6]]%float [0.5; 0.5]%float
      = Some (portfolio_cum_returns,
              cumulative_returns [[1; 2; 4]; [3; 3; 6]]%float)
    ∧ n ≤ 3 - 1
    ∧ length (cumulative_returns [[1; 2; 4]; [3; 3; 6]]%float)
      = length [[1; 2; 4]; [3; 3; 6]]%float
    ∧ Forall (λ c, length c = n) (cumulative_returns [[1; 2; 4]; [3; 3; 6]]%float)
    ∧ length portfolio_cum_returns = n.
Proof.
  apply (plot_cumulative_returns_shape [[1; 2; 4]; [3; 3; 6]]%float 3
           [0.5; 0.5]%float);
    [discriminate | by repeat constructor | | reflexivity].
  repeat (first [apply Forall_nil_2 | apply Forall_cons_2]); reflexivity.
Defined.

(** ** The draws of a simulation *)

Section DrawFacts.
Context {F : Type} `{Scalar F}.
Context {G : Type} (random_double : G → F * G).

Lemma np_random_random_add (a b : nat) (g : G) :
  np_random_random random_double (a + b) g
  = let '(x, g1) := np_random_random random_double a g in
    let '(y, g2) := np_random_random random_double b g1 in
    (x ++ y, g2).
Proof.
  revert g. induction a as [|a IH]; intros g; simpl.
  - by destruct (np_random_random random_double b g).
  - destruct (random_double g) as [x g1]. rewrite IH.
    destruct (np_random_random random_double a g1) as [xs g2].
    by destruct (np_random_random random_double b g2).
Qed.

Lemma trial_draws_add (k n m : nat) (g : G) :
  trial_draws random_double k (n + m) g
  = trial_draws random_double k n g
    ++ trial_draws random_double k m (after_trials random_double k n g)
  ∧ after_trials random_double k (n + m) g
    = after_trials random_double k m (after_trials random_double k n g).
Proof.
  revert g. induction n as [|n IH]; intros g; simpl; [done|].
  destruct (np_random_random random_double k g) as [d g1]. simpl.
  destruct (IH g1) as [-> ->]. done.
Qed.

(** The trials cut the generator's stream into consecutive blocks. *)
Lemma trial_draws_flat (k n : nat) (g : G) :
  concat (trial_draws random_double k n g)
    = (np_random_random random_double (n * k) g).1
  ∧ after_trials random_double k n g
    = (np_random_random random_double (n * k) g).2.
Proof.
  revert g. induction n as [|n IH]; intros g; simpl; [done|].
  rewrite np_random_random_add.
  destruct (np_random_random random_double k g) as [d g1]. simpl.
  destruct (IH g1) as [IH1 IH2].
  destruct (np_random_random random_double (n * k) g1) as [ds g2].
  simpl in *. by rewrite IH1, IH2.
Qed.

(** X11.  [simulate_portfolios] takes exactly
    [num_portfolios * len(returns.columns)] numbers from the generator, in
    order: the generator is left in the state that many draws lead to, and
    the recorded weight vectors are the normalised consecutive blocks, one
    block of [len(returns.columns)] numbers per trial, of that stream. *)
Theorem simulate_portfolios_draws (returns : list (list F))
    (num_portfolios : nat) (g : G) :
  ∃ weights_record results blocks,
    simulate_portfolios random_double returns num_portfolios g
      = Some (weights_record, results,
              (np_random_random random_double
                 (num_portfolios * length returns) g).2)
    ∧ weights_record = map normalize blocks
    ∧ Forall (λ b, length b = length returns) blocks
    ∧ concat blocks
      = (np_random_random random_double (num_portfolios * length returns) g).1.
Proof.
  rewrite simulate_portfolios_eq. cbv zeta.
  destruct (trial_draws_flat (length returns) num_portfolios g) as [Hcat Hg].
  rewrite Hg. eexists _, _, _. split; [reflexivity|].
  split; [reflexivity|]. split; [apply trial_draws_widths | exact Hcat].
Qed.

(** X12.  A run of [n + m] trials is a run of [n] trials followed by a run
    of [m] trials started in the generator state the first run leaves
    behind: the weight records and the three rows of results of the two
    runs, concatenated, are those of the long run. *)
Theorem simulate_portfolios_split (returns : list (list F)) (n m : nat) (g : G) :
  ∃ record1 means1 vols1 sharpes1 g1 record2 means2 vols2 sharpes2 g2,
    simulate_portfolios random_double returns n g
      = Some (record1, [means1; vols1; sharpes1], g1)
    ∧ simulate_portfolios random_double returns m g1
      = Some (record2, [means2; vols2; sharpes2], g2)
    ∧ simulate_portfolios random_double returns (n + m) g
      = Some (record1 ++ record2,
              [means1 ++ means2; vols1 ++ vols2; sharpes1 ++ sharpes2], g2).
Proof.
  pose proof (simulate_portfolios_eq random_double returns n g) as Hfirst.
  pose proof (simulate_portfolios_eq random_double returns m
                (after_trials random_double (length returns) n g)) as Hsecond.
  pose proof (simulate_portfolios_eq random_double returns (n + m) g) as Hlong.
  cbv zeta in Hfirst, Hsecond, Hlong.
  destruct (trial_draws_add (length returns) n m g) as [Hdraws Hstate].
  rewrite Hdraws, Hstate, !map_app in Hlong.
  eexists _, _, _, _, _, _, _, _, _, _.
  split; [exact Hfirst|]. split; [exact Hsecond|]. exact Hlong.
Qed.
End DrawFacts.

(** ** Return tables with fewer than two rows, in binary64 *)

Module Binary64Short.
Local Open Scope float_scope.
Import Binary64.

Lemma round_canonical (s : bool) (m : positive) (e : Z) :
  bounded prec emax m e = true →
  binary_round_aux prec emax s (Z.pos m) e loc_Exact = S754_finite s m e.
Proof.
  intros Hv. unfold binary_round_aux.
  assert (H2 : shr_fexp prec emax (Z.pos m) e loc_Exact
               = ({| shr_m := Z.pos m; shr_r := false; shr_s := false |}, e)).
  { unfold shr_fexp, Zdigits2. rewrite (fexp_canonical m e Hv).
    rewrite Z.sub_diag. reflexivity. }
  rewrite H2. cbn [shr_m loc_of_shr_record shr_r shr_s round_nearest_even].
  rewrite H2. cbn [shr_m].
  unfold bounded in Hv. apply andb_prop in Hv as [_ Hle].
  rewrite Hle. reflexivity.
Qed.

Lemma round_canonical_double (s : bool) (m : positive) (e : Z) :
  bounded prec emax m e = true →
  binary_round_aux prec emax s (Z.pos m~0) (e - 1) loc_Exact = S754_finite s m e.
Proof.
  intros Hv. unfold binary_round_aux.
  assert (H1 : shr_fexp prec emax (Z.pos m~0) (e - 1) loc_Exact
               = ({| shr_m := Z.pos m; shr_r := false; shr_s := false |}, e)).
  { unfold shr_fexp, Zdigits2. cbn [digits2_pos].
    replace (Z.pos (Pos.succ (digits2_pos m)) + (e - 1))%Z
      with (Z.pos (digits2_pos m) + e)%Z by lia.
    rewrite (fexp_canonical m e Hv).
    replace (e - (e - 1))%Z with 1%Z by lia.
    unfold shr. replace (e - 1 + 1)%Z with e by lia. reflexivity. }
  rewrite H1. cbn [shr_m loc_of_shr_record shr_r shr_s round_nearest_even].
  assert (H2 : shr_fexp prec emax (Z.pos m) e loc_Exact
               = ({| shr_m := Z.pos m; shr_r := false; shr_s := false |}, e)).
  { unfold shr_fexp, Zdigits2. rewrite (fexp_canonical m e Hv).
    rewrite Z.sub_diag. reflexivity. }
  rewrite H2. cbn [shr_m].
  unfold bounded in Hv. apply andb_prop in Hv as [_ Hle].
  rewrite Hle. reflexivity.
Qed.

Lemma div_eucl_exact (q : Z) :
  Z.div_eucl (q * 4503599627370496) 4503599627370496 = (q, 0%Z).
Proof.
  pose proof (Z.div_mul q 4503599627370496 ltac:(lia)) as Hq.
  pose proof (Z.mod_mul q 4503599627370496 ltac:(lia)) as Hr.
  unfold Z.div, Z.modulo in Hq, Hr.
  destruct (Z.div_eucl (q * 4503599627370496) 4503599627370496) as [a b].
  simpl in Hq, Hr. by subst.
Qed.

(** The quotient of a mantissa by the mantissa of one is exact: the
    mantissa itself for a subnormal number or a number of the least
    exponent, twice the mantissa one exponent lower otherwise. *)
Lemma SFdiv_core_one (m : positive) (e : Z) :
  bounded prec emax m e = true →
  SFdiv_core_binary prec emax (Z.pos m) e 4503599627370496 (-52)
    = (Z.pos m, e, loc_Exact)
  ∨ SFdiv_core_binary prec emax (Z.pos m) e 4503599627370496 (-52)
    = (Z.pos m~0, (e - 1)%Z, loc_Exact).
Proof.
  intros Hv. pose proof (fexp_canonical m e Hv) as Hc.
  unfold SFdiv_core_binary.
  change (Zdigits2 4503599627370496) with 53%Z.
  change (Zdigits2 (Z.pos m)) with (Z.pos (digits2_pos m)).
  unfold fexp in *. change (SpecFloat.emin prec emax) with (-1074)%Z in *.
  change prec with 53%Z in *.
  destruct (Z_le_gt_dec (Z.pos (digits2_pos m) + e - 53) (-1074)) as [Hsub|Hnorm].
  - left.
    replace (Z.min _ _) with e by lia.
    replace (e - -52 - e)%Z with 52%Z by lia.
    rewrite Z.shiftl_mul_pow2 by lia. change (2 ^ 52)%Z with 4503599627370496%Z.
    rewrite div_eucl_exact. reflexivity.
  - right.
    replace (Z.min _ _) with (e - 1)%Z by lia.
    replace (e - -52 - (e - 1))%Z with 53%Z by lia.
    rewrite Z.shiftl_mul_pow2 by lia.
    replace (Z.pos m * 2 ^ 53)%Z with (Z.pos m~0 * 4503599627370496)%Z by lia.
    rewrite div_eucl_exact. reflexivity.
Qed.

(** Dividing by one is exact. *)
Lemma SFdiv_one_r (x : spec_float) :
  valid_binary x = true → SF64div x (Prim2SF 1) = x.
Proof.
  intros Hv.
  change (Prim2SF 1) with (S754_finite false 4503599627370496 (-52)).
  destruct x as [s|s| |s m e]; try (by destruct s); try reflexivity.
  simpl in Hv. unfold SF64div, SFdiv. rewrite xorb_false_r.
  destruct (SFdiv_core_one m e Hv) as [-> | ->].
  - by apply round_canonical.
  - by apply round_canonical_double.
Qed.

Lemma div_1_r (x : float) : x / 1 = x.
Proof.
  apply Prim2SF_inj. rewrite FloatAxioms.div_spec.
  apply SFdiv_one_r, Prim2SF_valid.
Qed.

(** The difference of a number and itself is zero, or NaN when the number
    is an infinity or NaN. *)
Lemma sub_self (x : float) : zero_or_nan (x - x).
Proof.
  unfold zero_or_nan. rewrite FloatAxioms.sub_spec.
  destruct (Prim2SF x) as [s|s| |s m e]; try (by destruct s); try exact I.
  unfold SF64sub, SFsub. rewrite Z.sub_diag. exact I.
Qed.

Lemma mul_zero_or_nan (x y : float) :
  zero_or_nan x → zero_or_nan y → zero_or_nan (x * y).
Proof.
  unfold zero_or_nan. rewrite FloatAxioms.mul_spec.
  by destruct (Prim2SF x) as [?|?| |? ? ?], (Prim2SF y) as [?|?| |? ? ?].
Qed.

Lemma add_0_zero_or_nan (x : float) : zero_or_nan x → zero_or_nan (0 + x).
Proof.
  unfold zero_or_nan. rewrite FloatAxioms.add_spec.
  change (Prim2SF 0) with (S754_zero false).
  by destruct (Prim2SF x) as [[]|?| |? ? ?].
Qed.

Lemma div_zero_or_nan_by_0 (x : float) : zero_or_nan x → x / 0 = nan.
Proof.
  unfold zero_or_nan. intros Hx. apply Prim2SF_inj.
  rewrite FloatAxioms.div_spec. change (Prim2SF 0) with (S754_zero false).
  by destruct (Prim2SF x) as [[]|?| |? ? ?].
Qed.

(** The deviation of the single value of a one-row column from the mean of
    the column. *)
Lemma deviation_single (x : float) : zero_or_nan (x - (0 + x) / 1).
Proof.
  destruct (add_0_l x) as [-> | ->].
  - rewrite div_1_r. apply sub_self.
  - exact I.
Qed.

Lemma mul_nan_l (x : float) : nan * x = nan.
Proof.
  apply Prim2SF_inj. rewrite FloatAxioms.mul_spec.
  change (Prim2SF nan) with S754_nan. reflexivity.
Qed.

Lemma mul_nan_r (x : float) : x * nan = nan.
Proof.
  apply Prim2SF_inj. rewrite FloatAxioms.mul_spec.
  change (Prim2SF nan) with S754_nan.
  by destruct (Prim2SF x) as [?|?| |? ? ?].
Qed.

Lemma add_nan_l (x : float) : nan + x = nan.
Proof.
  apply Prim2SF_inj. rewrite FloatAxioms.add_spec.
  change (Prim2SF nan) with S754_nan. reflexivity.
Qed.

Lemma div_nan_r (x : float) : x / nan = nan.
Proof.
  apply Prim2SF_inj. rewrite FloatAxioms.div_spec.
  change (Prim2SF nan) with S754_nan.
  by destruct (Prim2SF x) as [?|?| |? ? ?].
Qed.

(** NaN at the head of an array makes its sum NaN. *)
Lemma np_sum_nan_head (l : list float) : np_sum (nan :: l) = nan.
Proof.
  unfold np_sum. cbn [fold_left].
  change (fadd (of_int 0) nan) with nan.
  induction l as [|x l IH]; [done|]. cbn [fold_left].
  change (fadd nan x) with (nan + x). by rewrite add_nan_l.
Qed.

(** The sample covariance of two columns of at most one row is [0/0]. *)
Lemma covariance_short (a b : list float) :
  (length a ≤ 1)%nat → (length b ≤ 1)%nat → covariance a b = nan.
Proof.
  intros Ha Hb.
  destruct a as [|x [|? ?]]; [| |simpl in Ha; lia];
    (destruct b as [|y [|? ?]]; [| |simpl in Hb; lia]); try reflexivity.
  unfold covariance, deviations, series_mean, np_multiply, np_sum.
  cbn [map zip_with fold_left length Nat.sub].
  change (of_int 0) with 0. change (of_int 1) with 1.
  change (fdiv ?u ?v) with (u / v). change (fadd ?u ?v) with (u + v).
  change (fsub ?u ?v) with (u - v). change (fmul ?u ?v) with (u * v).
  apply div_zero_or_nan_by_0, add_0_zero_or_nan, mul_zero_or_nan;
    apply deviation_single.
Qed.

Lemma quadratic_form_short (weights : list float) (returns : list (list float)) :
  returns ≠ [] →
  Forall (λ c, (length c ≤ 1)%nat) returns →
  length weights = length returns →
  quadratic_form weights returns = nan.
Proof.
  intros Hne Hshort Hlen.
  destruct returns as [|c0 rs]; [done|].
  destruct weights as [|w0 ws]; [discriminate|].
  apply Forall_cons in Hshort as [Hc0 _].
  unfold quadratic_form, df_cov, mat_scale, np_dot_mat.
  cbn [map]. rewrite (covariance_short c0 c0 Hc0 Hc0).
  set (rows := map _ (map _ (map _ rs))). set (row := map _ (map _ rs)).
  assert (Hrow : np_dot (nan ⊗ of_int NUM_TRADING_DAYS :: row) (w0 :: ws) = nan).
  { unfold np_dot, np_multiply. cbn [zip_with].
    change (fmul (fmul nan ?k) w0) with ((nan * k) * w0).
    by rewrite !mul_nan_l, np_sum_nan_head. }
  rewrite Hrow. unfold np_dot, np_multiply. cbn [zip_with].
  change (fmul w0 nan) with (w0 * nan).
  by rewrite mul_nan_r, np_sum_nan_head.
Qed.

(** X13.  In binary64, for a return table with at least one column whose
    columns have fewer than two rows, and as many weights as columns,
    [portfolio_performance] returns NaN as the volatility and as the Sharpe
    ratio, whatever the weights and the returns are: the sample covariance
    divides by [N - 1 = 0]. *)
Theorem short_table_volatility_is_nan
    (weights : list float) (returns : list (list float)) :
  returns ≠ [] →
  Forall (λ c, (length c ≤ 1)%nat) returns →
  length weights = length returns →
  ∃ mean_return,
    portfolio_performance weights returns = Some (mean_return, nan, nan).
Proof.
  intros Hne Hshort Hlen. rewrite portfolio_performance_eq by done.
  eexists. unfold sharpe_of, annualized_volatility.
  rewrite (quadratic_form_short weights returns Hne Hshort Hlen).
  change (fsqrt nan) with nan.
  change (fdiv ?u nan) with (u / nan). by rewrite div_nan_r.
Qed.

Lemma short_table_volatility_is_nan_witness :
  ∃ mean_return,
    portfolio_performance [0.5; 0.5] [[0x1p-7]; [0x3p-7]]
      = Some (mean_return, nan, nan).
Proof.
  apply (short_table_volatility_is_nan [0.5; 0.5] [[0x1p-7]; [0x3p-7]]);
    [discriminate | repeat constructor | reflexivity].
Defined.

(** X14.  In binary64, whatever function [np.log] is, for a table of prices
    with at least one column and at most two rows, and as many weights as
    columns, the performance of every portfolio over
    [compute_log_returns(data)] has NaN as its volatility and as its Sharpe
    ratio: at most one row of returns is left. *)
Theorem two_days_of_prices_give_nan {np_log64 : Logarithm float}
    (weights : list float) (data : list (list float)) (T : nat) :
  data ≠ [] →
  Forall (λ c, length c = T) data →
  (T ≤ 2)%nat →
  length weights = length data →
  ∃ mean_return,
    portfolio_performance weights (compute_log_returns data)
      = Some (mean_return, nan, nan).
Proof.
  intros Hne Hrect HT Hlen.
  pose proof (log_rows_kept_bound data T Hne Hrect) as Hbound.
  cbv zeta in Hbound. unfold compute_log_returns in *.
  set (df := map (λ c, np_log (ratio_to_previous c)) data) in *.
  destruct (dropna_shape df) as [Hcols Hshape].
  assert (Hdf : length df = length data) by (unfold df; by rewrite length_map).
  assert (Hne' : dropna df ≠ []).
  { intros Hnil. rewrite Hnil, Hdf in Hcols.
    destruct data; [done|discriminate]. }
  assert (Hshort : Forall (λ c, (length c ≤ 1)%nat) (dropna df)).
  { eapply Forall_impl; [exact Hshape|]. intros c [Hc _]. simpl. lia. }
  assert (Hlen' : length weights = length (dropna df)) by lia.
  rewrite portfolio_performance_eq by done.
  eexists. unfold sharpe_of, annualized_volatility.
  rewrite (quadratic_form_short weights (dropna df) Hne' Hshort Hlen').
  change (fsqrt nan) with nan.
  change (fdiv ?u nan) with (u / nan). by rewrite div_nan_r.
Qed.

Lemma two_days_of_prices_give_nan_witness :
  ∃ mean_return,
    portfolio_performance [0.5; 0.5]
      (@compute_log_returns float binary64 {| flog := λ x, x |} [[1; 2]; [4; 2]])
      = Some (mean_return, nan, nan).
Proof.
  apply (@two_days_of_prices_give_nan {| flog := λ x, x |}
           [0.5; 0.5] [[1; 2]; [4; 2]] 2);
    [discriminate | by repeat constructor | lia | reflexivity].
Defined.
End Binary64Short.
